(** * force_budget.py: the clamped output force

    The program defines one function, [apply_force], which scales the
    actuator's force by an efficiency factor and returns the smallest of the
    desired force, the safety limit and that scaled force; the module body
    then calls it once on fixed values and prints the result.

    The development follows the program: first the fragment of the Python
    runtime the program relies on ([*], [min], [print], module globals),
    written as a small state-and-exception monad; then [apply_force] and the
    module body, transcribed statement by statement; then the carriers
    the properties are stated on, the real numbers of the specification,
    the binary64 floats of the interpreter, and Python's ints and floats
    together; then the properties. *)

From Stdlib Require Import Bool List String Ascii ZArith Lia DecimalString.
From Stdlib Require Import Reals Lra.
From Stdlib Require Import Floats.
Import ListNotations.

Set Warnings "-inexact-float".

Open Scope string_scope.

(** ** Numbers as the program uses them

    [apply_force] is duck typed: of its arguments it only asks for a product
    ([efficiency * actuator_force]) and, through [min], for the comparison
    [<].  A numeric carrier is a type with these two operations, total on
    it. *)

Class Number (T : Type) : Type :=
  { num_mul : T -> T -> T;      (* [x * y] *)
    num_lt : T -> T -> bool }.  (* [x < y] *)

(** A number passed to [print] is shown by its [repr]. *)
Class Repr (T : Type) : Type :=
  { num_repr : T -> string }.

(** ** Outcomes

    An evaluation returns a value or raises. *)

Inductive exn : Type :=
| TypeError       (* an operation applied to an object of the wrong kind *)
| NameError       (* a global name read before it is bound *)
| OverflowError.  (* an int too large to convert to a float *)

Inductive outcome (A : Type) : Type :=
| Returned (a : A)
| Raised (e : exn).

Arguments Returned {A} a.
Arguments Raised {A} e.

(** ** Operands

    In general [x * y] and [x < y] may raise: what they do depends on the
    types of both operands.  The operands of a call are values of a type
    with these two operations; a numeric carrier, whose operations are
    total, is one whose operations always return. *)

Class Operand (T : Type) : Type :=
  { op_mul : T -> T -> outcome T;
    op_lt : T -> T -> outcome bool }.

#[export] Instance number_operand {T : Type} {numT : Number T} : Operand T :=
  { op_mul x y := Returned (num_mul x y);
    op_lt x y := Returned (num_lt x y) }.

(** ** The runtime: interpreter state, the monad *)

Section Runtime.

Context {T : Type}.

(** What a running module can observe and change: its global variables and
    what it has written to standard output. *)
Record interp : Type :=
  { globals : list (string * T);
    stdout : string }.

Definition Py (A : Type) : Type := interp -> outcome (A * interp).

Definition ret {A} (a : A) : Py A := fun w => Returned (a, w).

Definition raise {A} (e : exn) : Py A := fun _ => Raised e.

Definition bind {A B} (m : Py A) (k : A -> Py B) : Py B :=
  fun w =>
    match m w with
    | Returned (a, w') => k a w'
    | Raised e => Raised e
    end.

(** An evaluation that does not touch the state. *)
Definition lift {A} (o : outcome A) : Py A :=
  fun w =>
    match o with
    | Returned a => Returned (a, w)
    | Raised e => Raised e
    end.

(** The number a name is bound to in the module's namespace, if any. *)
Fixpoint lookup (name : string) (g : list (string * T)) : option T :=
  match g with
  | [] => None
  | (n, x) :: g' => if String.eqb n name then Some x else lookup name g'
  end.

End Runtime.

Arguments interp T : clear implicits.
Arguments Py T A : clear implicits.

Declare Scope py_scope.
Delimit Scope py_scope with py.
Notation "x <- m ;; k" := (bind m (fun x => k))
  (at level 100, m at next level, right associativity) : py_scope.
Notation "m ;;; k" := (bind m (fun _ => k))
  (at level 100, right associativity) : py_scope.
Open Scope py_scope.

(** ** The builtins: [*], [<], [min] *)

(** One turn of the loop of [min] on a numeric carrier, as a function: the
    item [y] replaces the running minimum [x] only when [y < x]. *)
Definition keep_min {T : Type} {numT : Number T} (x y : T) : T :=
  if num_lt y x then y else x.

Section Builtins.

Context {T : Type} {opT : Operand T}.

(** [x * y] and [x < y] on two operands. *)
Definition py_mul (x y : T) : Py T T := lift (op_mul x y).
Definition py_lt (x y : T) : Py T bool := lift (op_lt x y).

(** The loop of the builtin [min]: the running minimum is replaced by the
    next item only when [item < minimum] holds, so of several equal
    minima the first is kept. *)
Fixpoint min_loop (minitem : T) (items : list T) : Py T T :=
  match items with
  | [] => ret minitem
  | item :: items' =>
      less <- py_lt item minitem ;;
      min_loop (if less then item else minitem) items'
  end.

(** [min(arg1, arg2, ...)].  Called with no argument it raises; called
    with one argument it takes that argument for an iterable, which a
    number is not. *)
Definition py_min (args : list T) : Py T T :=
  match args with
  | [] => raise TypeError
  | [_] => raise TypeError
  | first :: items => min_loop first items
  end.


End Builtins.

(** ** Output and module globals *)

Section Output.

Context {T : Type} {reprT : Repr T}.

(** What the program passes to [print]: string literals and numbers. *)
Inductive object : Type :=
| Str (s : string)
| Num (x : T).

Definition py_str (o : object) : string :=
  match o with
  | Str s => s
  | Num x => num_repr x
  end.

Definition newline : string := String (ascii_of_nat 10) EmptyString.

(** The lines of a text: its newline characters, counted. *)
Fixpoint line_count (s : string) : nat :=
  match s with
  | EmptyString => 0
  | String ch s' =>
      (if Ascii.eqb ch (ascii_of_nat 10) then 1 else 0) + line_count s'
  end.

(** [print(arg1, arg2, ...)]: the texts of the arguments, separated by one
    space and ended by a newline, appended to standard output. *)
Definition print (args : list object) : Py T unit :=
  fun w =>
    Returned (tt, {| globals := globals w;
                     stdout := stdout w ++ String.concat " " (map py_str args) ++ newline |}).

(** [name = x] at module level binds [name] anew; reading a name that is
    not bound raises. *)
Definition unbind (name : string) (g : list (string * T)) : list (string * T) :=
  filter (fun p => negb (String.eqb (fst p) name)) g.

Definition store (name : string) (x : T) : Py T unit :=
  fun w =>
    Returned (tt, {| globals := (name, x) :: unbind name (globals w);
                     stdout := stdout w |}).

Definition load (name : string) : Py T T :=
  fun w =>
    match lookup name (globals w) with
    | Some x => Returned (x, w)
    | None => Raised NameError
    end.

End Output.

Arguments object T : clear implicits.

(** ** The program *)

Section Program.

Context {T : Type} {opT : Operand T}.

(** Lines 1-4:
<<
def apply_force(desired_force, safe_limit, actuator_force, efficiency):
    effective_force = efficiency * actuator_force
    return min(desired_force, safe_limit, effective_force)
>>
    The parameters and [effective_force] are local; [min] is the one free
    name of the body, and [min_] is what it stands for. *)
Definition apply_force_body (min_ : list T -> Py T T)
  (desired_force safe_limit actuator_force efficiency : T) : Py T T :=
  effective_force <- py_mul efficiency actuator_force ;;
  min_ [desired_force; safe_limit; effective_force].

(** The function in the module as written, which nowhere rebinds [min]:
    the name stands for the builtin. *)
Definition apply_force : T -> T -> T -> T -> Py T T :=
  apply_force_body py_min.


End Program.

(** ** The carriers

    The specification speaks of real numbers; the interpreter computes with
    binary64 floats, which is what the literals of the module body are. *)

#[export] Instance R_number : Number R :=
  { num_mul := Rmult;
    num_lt x y := if Rlt_dec x y then true else false }.

#[export] Instance float_number : Number float :=
  { num_mul := PrimFloat.mul;
    num_lt := PrimFloat.ltb }.

(** ** Python's numbers: ints and floats together

    A call may receive ints, of any size, as well as floats.  Two ints are
    multiplied and compared exactly; an int that meets a float in a product
    is first converted to the nearest float, and the conversion raises when
    the int is beyond the floats; an int is compared with a float exactly,
    by value. *)

Inductive number : Type :=
| Int (z : Z)
| Float (f : float).

(** [float(z)]: the nearest binary64 value, ties to even; an int that
    rounds beyond the largest float is too large to convert. *)
Definition float_of_int (z : Z) : outcome float :=
  match binary_normalize prec emax z 0 false with
  | S754_infinity _ => Raised OverflowError
  | x => Returned (SF2Prim x)
  end.

(** The order of an int and a float, by value; nan has none. *)
Definition compare_int_float (z : Z) (f : float) : option comparison :=
  match Prim2SF f with
  | S754_nan => None
  | S754_infinity s => Some (if s then Gt else Lt)
  | S754_zero _ => Some (z ?= 0)%Z
  | S754_finite s m e =>
      let v := if s then Zneg m else Zpos m in
      Some (if (0 <=? e)%Z then (z ?= v * 2 ^ e)%Z else (z * 2 ^ (- e) ?= v)%Z)
  end.

Definition number_mul (x y : number) : outcome number :=
  match x, y with
  | Int a, Int b => Returned (Int (a * b))
  | Float a, Float b => Returned (Float (a * b))
  | Int a, Float b =>
      match float_of_int a with
      | Returned a' => Returned (Float (a' * b))
      | Raised e => Raised e
      end
  | Float a, Int b =>
      match float_of_int b with
      | Returned b' => Returned (Float (a * b'))
      | Raised e => Raised e
      end
  end.

Definition number_lt (x y : number) : outcome bool :=
  Returned
    match x, y with
    | Int a, Int b => (a <? b)%Z
    | Float a, Float b => (a <? b)%float
    | Int a, Float b =>
        match compare_int_float a b with Some Lt => true | _ => false end
    | Float a, Int b =>
        match compare_int_float b a with Some Gt => true | _ => false end
    end.

#[export] Instance number_operands : Operand number :=
  { op_mul := number_mul;
    op_lt := number_lt }.

(** An int too large to convert to a float, and a product that has to
    convert one: an int times a float, either way round. *)
Definition too_large (z : Z) : bool :=
  match float_of_int z with
  | Raised _ => true
  | Returned _ => false
  end.

Definition product_overflows (efficiency actuator_force : number) : bool :=
  match efficiency, actuator_force with
  | Int z, Float _ | Float _, Int z => too_large z
  | _, _ => false
  end.

(** ** Text of a float

    [print] shows a float through [repr]: the shortest decimal numeral that
    reads back as the same binary64 value, and of the numerals of that length
    the one nearest to it.  The digits are found with exact integer
    arithmetic on the float's mantissa [m] and exponent [e] (its value is
    [m * 2^e]). *)

Section ShortestDigits.

Variable m : positive.
Variable e : Z.

(** The value divided by [10^k] is [scaled_num k / scaled_den k]. *)
Definition scale_num (k : Z) : Z := 2 ^ Z.max e 0 * 10 ^ Z.max (- k) 0.
Definition scale_den (k : Z) : Z := 2 ^ Z.max (- e) 0 * 10 ^ Z.max k 0.

(** [value < 10^p]. *)
Definition below_pow10 (p : Z) : bool :=
  (Zpos m * scale_num p <? scale_den p)%Z.

(** The decimal point: the least [p] with [value < 10^p], searched upwards
    from an estimate that never exceeds it. *)
Fixpoint decpt_from (fuel : nat) (p : Z) : Z :=
  match fuel with
  | O => p
  | S fuel' => if below_pow10 p then p else decpt_from fuel' (p + 1)
  end.

Definition decpt : Z :=
  decpt_from 4 (((Z.log2 (Zpos m) + e) * 30103) / 100000).

(** Four times the value and the two ends of its rounding interval, in units
    of [2^(e-2)]: half way to the next float above, and half way to the next
    float below, which is nearer when the mantissa is a power of two (and the
    float is not the smallest normal one). *)
Definition four_v : Z := 4 * Zpos m.
Definition four_hi : Z := four_v + 2.
Definition four_lo : Z :=
  if ((Zpos m =? 2 ^ 52) && (-1074 <? e))%Z%bool then four_v - 1 else four_v - 2.

(** [d * 10^k] rounds to the float: the ends of the interval count when the
    mantissa is even (ties go to even). *)
Definition rounds_back (k d : Z) : bool :=
  let x := (4 * d * scale_den k)%Z in
  if Z.even (Zpos m)
  then ((four_lo * scale_num k <=? x) && (x <=? four_hi * scale_num k))%Z%bool
  else ((four_lo * scale_num k <? x) && (x <? four_hi * scale_num k))%Z%bool.

(** Distance of [d * 10^k] from the value, scaled. *)
Definition gap (k d : Z) : Z :=
  Z.abs (4 * d * scale_den k - four_v * scale_num k).

(** Numerals of [n], [n+1], ... digits: the first length at which the
    numeral just below or just above the value rounds back gives the
    digits [d] and the exponent [k] of the answer [d * 10^k]. *)
Fixpoint shortest_from (fuel : nat) (n : Z) : Z * Z :=
  let k := (decpt - n)%Z in
  let lo := (Zpos m * scale_num k / scale_den k)%Z in
  let hi := (lo + 1)%Z in
  match fuel with
  | O => (lo, k)
  | S fuel' =>
      match rounds_back k lo, rounds_back k hi with
      | true, true =>
          match (gap k lo ?= gap k hi)%Z with
          | Lt => (lo, k)
          | Gt => (hi, k)
          | Eq => if Z.even lo then (lo, k) else (hi, k)
          end
      | true, false => (lo, k)
      | false, true => (hi, k)
      | false, false => shortest_from fuel' (n + 1)
      end
  end.

Definition shortest : Z * Z := shortest_from 17 1.

End ShortestDigits.

(** Trailing zeros move from the digits to the exponent. *)
Fixpoint strip_zeros (fuel : nat) (d k : Z) : Z * Z :=
  match fuel with
  | O => (d, k)
  | S fuel' =>
      if ((0 <? d) && (d mod 10 =? 0))%Z%bool
      then strip_zeros fuel' (d / 10) (k + 1)
      else (d, k)
  end.

Definition decimal (z : Z) : string :=
  NilZero.string_of_uint (N.to_uint (Z.to_N z)).

Definition zeros (n : Z) : string :=
  String.concat "" (repeat "0" (Z.to_nat n)).

Definition take (n : Z) (s : string) : string := substring 0 (Z.to_nat n) s.
Definition drop (n : Z) (s : string) : string :=
  substring (Z.to_nat n) (String.length s - Z.to_nat n) s.

(** The digits [ds] with the decimal point after the first [p] of them
    ([0.ds * 10^p]): positional when [-4 < p <= 16], with [.0] added to a
    whole number; otherwise with an exponent of at least two digits. *)
Definition place_point (ds : string) (p : Z) : string :=
  let n := Z.of_nat (String.length ds) in
  if ((-4 <? p) && (p <=? 16))%Z%bool then
    if (p <=? 0)%Z then "0." ++ zeros (- p) ++ ds
    else if (n <=? p)%Z then ds ++ zeros (p - n) ++ ".0"
    else take p ds ++ "." ++ drop p ds
  else
    let x := (p - 1)%Z in
    take 1 ds ++ (if (1 <? n)%Z then "." ++ drop 1 ds else "")
      ++ "e" ++ (if (x <? 0)%Z then "-" else "+")
      ++ (if (Z.abs x <? 10)%Z then "0" else "") ++ decimal (Z.abs x).

Definition sign_text (s : bool) : string := if s then "-" else "".

Definition repr_spec_float (x : spec_float) : string :=
  match x with
  | S754_nan => "nan"
  | S754_infinity s => sign_text s ++ "inf"
  | S754_zero s => sign_text s ++ "0.0"
  | S754_finite s m e =>
      let (d, k) := shortest m e in
      let (d, k) := strip_zeros 17 d k in
      let ds := decimal d in
      sign_text s ++ place_point ds (k + Z.of_nat (String.length ds))
  end.

Definition float_repr (x : float) : string := repr_spec_float (Prim2SF x).

#[export] Instance float_repr_instance : Repr float :=
  { num_repr := float_repr }.

(** ** The module body *)

(** The interpreter as the module starts: nothing bound, nothing written. *)
Definition fresh (T : Type) : interp T := {| globals := []; stdout := "" |}.

(** Lines 7-12, the module body:
<<
force = apply_force(desired_force=2.0, safe_limit=3.0,
                    actuator_force=5.0, efficiency=0.8)
print("Final output force:", force, "N")
>>
    The keyword arguments are bound to the parameters of the same names. *)
Definition main : Py float unit :=
  force <- apply_force 2.0%float 3.0%float 5.0%float 0.8%float ;;
  store "force" force ;;;
  force <- load "force" ;;
  print [Str "Final output force:"; Num force; Str "N"].

(** ** The order of binary64 floats

    Every float but nan has a place in the order: the infinities at the two
    ends, the zeros (equal to each other) in the middle, and the finite
    numbers by sign, then exponent, then mantissa.  [key] names that place
    by a triple of integers compared lexicographically. *)

Section FloatOrder.

Local Open Scope Z_scope.

Definition key (x : spec_float) : Z * Z * Z :=
  match x with
  | S754_infinity true => (-2, 0, 0)
  | S754_finite true m e => (-1, - e, Zneg m)
  | S754_zero _ | S754_nan => (0, 0, 0)
  | S754_finite false m e => (1, e, Zpos m)
  | S754_infinity false => (2, 0, 0)
  end.

Definition key_lt (p q : Z * Z * Z) : Prop :=
  let '(a1, a2, a3) := p in
  let '(b1, b2, b3) := q in
  a1 < b1 \/ (a1 = b1 /\ (a2 < b2 \/ (a2 = b2 /\ a3 < b3))).

Definition key_compare (p q : Z * Z * Z) : comparison :=
  let '(a1, a2, a3) := p in
  let '(b1, b2, b3) := q in
  match a1 ?= b1 with
  | Eq => match a2 ?= b2 with Eq => a3 ?= b3 | c => c end
  | c => c
  end.

Definition has_order (x : spec_float) : Prop := x <> S754_nan.

(** A float that is not nan, and the place of a float. *)
Definition ordered (x : float) : Prop := is_nan x = false.
Definition fkey (x : float) : Z * Z * Z := key (Prim2SF x).

End FloatOrder.

(** * Properties *)

(** ** What a call computes, on any carrier

    A call runs to completion in any interpreter state, leaves that state as
    it found it, and returns the value the two comparisons of [min] select. *)

Section Clamp.

Context {T : Type} {numT : Number T}.

Lemma min_loop_run (items : list T) :
  forall (minitem : T) (w : interp T),
    min_loop minitem items w = Returned (fold_left keep_min items minitem, w).
Proof.
  induction items as [| item items IH]; intros minitem w.
  - reflexivity.
  - cbn [min_loop fold_left]. unfold bind, py_lt, lift.
    cbn [op_lt number_operand]. apply IH.
Qed.

Lemma py_min_run (x y : T) (items : list T) (w : interp T) :
  py_min (x :: y :: items) w = Returned (fold_left keep_min (y :: items) x, w).
Proof. unfold py_min. apply min_loop_run. Qed.

Lemma apply_force_run (a b c e : T) (w : interp T) :
  apply_force a b c e w
  = Returned (keep_min (keep_min a b) (num_mul e c), w).
Proof.
  unfold apply_force, apply_force_body, bind, py_mul, lift.
  cbn [op_mul number_operand]. rewrite py_min_run. reflexivity.
Qed.

(** The failures the runtime does have are out of the program's reach:
    [min] raises on fewer than two numbers, and reading a name raises while
    the name is unbound. *)
Lemma py_min_raises_below_two_items (x : T) (w : interp T) :
  py_min [] w = Raised TypeError /\ py_min [x] w = Raised TypeError.
Proof. split; reflexivity. Qed.

Lemma load_raises_when_unbound (name : string) :
  load name (fresh T) = Raised NameError.
Proof. reflexivity. Qed.

(** One turn of the loop keeps one of its two arguments. *)
Lemma keep_min_cases (x y : T) : keep_min x y = x \/ keep_min x y = y.
Proof. unfold keep_min. destruct (num_lt y x); auto. Qed.

End Clamp.

(** ** On the real numbers *)

(** On the reals the loop of [min] computes the mathematical minimum. *)
Lemma keep_min_Rmin (x y : R) : keep_min x y = Rmin x y.
Proof.
  unfold keep_min, Rmin. cbn [num_lt R_number].
  destruct (Rlt_dec y x) as [Hlt | Hge], (Rle_dec x y) as [Hle | Hgt];
    try reflexivity; lra.
Qed.

(** A call on reals, run: the state is untouched and the value is written
    with [Rmin]. *)
Ltac run_on_reals :=
  rewrite apply_force_run, !keep_min_Rmin; cbn [num_mul R_number].

Section Reals.

Local Open Scope R_scope.

(** C1. For every four reals a (desired_force), b (safe_limit),
    c (actuator_force) and e (efficiency), [apply_force] returns exactly
    min(a, b, e*c): the product first, then the minimum of the three. *)
Theorem apply_force_is_min3 :
  forall (a b c e : R) (w : interp R),
    apply_force a b c e w = Returned (Rmin (Rmin a b) (e * c), w).
Proof.
  intros a b c e w. run_on_reals. reflexivity.
Qed.

(** C2. For every four real inputs the value returned is at most each of
    desired_force, safe_limit and efficiency*actuator_force; nothing more is
    promised: the value returned can be negative. *)
Theorem apply_force_le_candidates :
  (forall (a b c e : R) (w : interp R),
      exists r, apply_force a b c e w = Returned (r, w)
                /\ r <= a /\ r <= b /\ r <= e * c)
  /\ (forall w : interp R,
         exists a b c e r, apply_force a b c e w = Returned (r, w) /\ r < 0).
Proof.
  split.
  - intros a b c e w. exists (Rmin (Rmin a b) (e * c)).
    split; [run_on_reals; reflexivity |].
    pose proof (Rmin_l (Rmin a b) (e * c)).
    pose proof (Rmin_r (Rmin a b) (e * c)).
    pose proof (Rmin_l a b). pose proof (Rmin_r a b).
    repeat split; lra.
  - intros w. exists (-1), 3, 5, (8 / 10), (-1).
    split; [| lra].
    run_on_reals.
    replace (Rmin (Rmin (-1) 3) (8 / 10 * 5)) with (-1); [reflexivity |].
    unfold Rmin. repeat destruct Rle_dec; lra.
Qed.

(** C3. [apply_force] is non-decreasing in its first argument: with
    safe_limit b, actuator_force c and efficiency e fixed, a1 <= a2 gives
    apply_force(a1,b,c,e) <= apply_force(a2,b,c,e). *)
Theorem apply_force_monotone :
  forall (a1 a2 b c e : R) (w : interp R),
    a1 <= a2 ->
    exists r1 r2,
      apply_force a1 b c e w = Returned (r1, w)
      /\ apply_force a2 b c e w = Returned (r2, w)
      /\ r1 <= r2.
Proof.
  intros a1 a2 b c e w Hle.
  exists (Rmin (Rmin a1 b) (e * c)), (Rmin (Rmin a2 b) (e * c)).
  split; [run_on_reals; reflexivity |].
  split; [run_on_reals; reflexivity |].
  apply Rle_min_compat_r, Rle_min_compat_r, Hle.
Qed.

Lemma apply_force_monotone_witness :
  1 <= 2
  /\ exists r1 r2,
      apply_force 1 3 5 (8 / 10) (fresh R) = Returned (r1, fresh R)
      /\ apply_force 2 3 5 (8 / 10) (fresh R) = Returned (r2, fresh R)
      /\ r1 <= r2.
Proof.
  split; [lra |].
  apply (apply_force_monotone 1 2 3 5 (8 / 10) (fresh R)). lra.
Defined.

(** C4. With efficiency 0 the call returns min(a, b, 0), whatever the
    actuator force: the effective force is zero. *)
Theorem apply_force_zero_efficiency :
  forall (a b c : R) (w : interp R),
    apply_force a b c 0 w = Returned (Rmin (Rmin a b) 0, w).
Proof.
  intros a b c w. run_on_reals. rewrite Rmult_0_l. reflexivity.
Qed.

(** C10. The value returned is always one of the three candidates,
    desired_force, safe_limit or efficiency*actuator_force, never a fresh
    value; so clamping it again changes nothing:
    apply_force(apply_force(a,b,c,e), b, c, e) = apply_force(a,b,c,e). *)
Theorem apply_force_selects_fixed_point :
  forall (a b c e : R) (w : interp R),
    exists r,
      apply_force a b c e w = Returned (r, w)
      /\ (r = a \/ r = b \/ r = e * c)
      /\ apply_force r b c e w = Returned (r, w).
Proof.
  intros a b c e w. exists (Rmin (Rmin a b) (e * c)).
  split; [run_on_reals; reflexivity |].
  split.
  - unfold Rmin. repeat destruct Rle_dec; auto.
  - run_on_reals.
    rewrite (Rmin_left (Rmin (Rmin a b) (e * c)) b).
    + rewrite (Rmin_left _ (e * c)) by apply Rmin_r. reflexivity.
    + eapply Rle_trans; [apply Rmin_l | apply Rmin_r].
Qed.

End Reals.

(** ** The calls of the specification's scenarios

    The literals of the program are binary64 floats; each scenario is run on
    them as the interpreter does, and on the reals they stand for. *)

Section Scenarios.

Local Open Scope R_scope.

(** The three comparisons of a scenario on reals, settled by arithmetic. *)
Ltac settle_Rmin := unfold Rmin; repeat destruct Rle_dec; lra.

(** C5. On desired_force=2.0, safe_limit=3.0, actuator_force=5.0,
    efficiency=0.8 the effective force is 0.8*5.0 = 4.0, [apply_force]
    returns min(2.0, 3.0, 4.0) = 2.0, and the program writes exactly one
    line to standard output: Final output force: 2.0 N *)
Theorem demo_returns_and_prints :
  (forall w : interp float,
      apply_force 2.0%float 3.0%float 5.0%float 0.8%float w
      = Returned (2.0%float, w))
  /\ num_mul 0.8%float 5.0%float = 4.0%float
  /\ (forall w : interp R, apply_force 2 3 5 (8 / 10) w = Returned (2, w))
  /\ main (fresh float)
     = Returned (tt, {| globals := [("force", 2.0%float)];
                        stdout := "Final output force: 2.0 N" ++ newline |})
  /\ line_count ("Final output force: 2.0 N" ++ newline) = 1%nat.
Proof.
  split; [| split; [| split; [| split]]].
  - intros w. rewrite apply_force_run. reflexivity.
  - reflexivity.
  - intros w. run_on_reals.
    replace (Rmin (Rmin 2 3) (8 / 10 * 5)) with 2; [reflexivity | settle_Rmin].
  - unfold main, bind. rewrite apply_force_run. vm_compute. reflexivity.
  - reflexivity.
Qed.

(** C6. apply_force(10.0, 3.0, 5.0, 0.8) returns 3.0: the safety limit is
    the smallest candidate and is the value returned. *)
Theorem safety_limit_binds :
  (forall w : interp float,
      apply_force 10.0%float 3.0%float 5.0%float 0.8%float w
      = Returned (3.0%float, w))
  /\ (forall w : interp R, apply_force 10 3 5 (8 / 10) w = Returned (3, w)).
Proof.
  split; intros w.
  - rewrite apply_force_run. reflexivity.
  - run_on_reals.
    replace (Rmin (Rmin 10 3) (8 / 10 * 5)) with 3; [reflexivity | settle_Rmin].
Qed.

(** C7. apply_force(10.0, 10.0, 5.0, 0.5) returns 2.5: the
    efficiency-scaled actuator force is the smallest candidate and is the
    value returned. *)
Theorem scaled_actuator_binds :
  (forall w : interp float,
      apply_force 10.0%float 10.0%float 5.0%float 0.5%float w
      = Returned (2.5%float, w))
  /\ (forall w : interp R,
         apply_force 10 10 5 (5 / 10) w = Returned (25 / 10, w)).
Proof.
  split; intros w.
  - rewrite apply_force_run. reflexivity.
  - run_on_reals.
    replace (Rmin (Rmin 10 10) (5 / 10 * 5)) with (25 / 10);
      [reflexivity | settle_Rmin].
Qed.

End Scenarios.

(** ** Hidden state: the name [min] *)

Section HiddenState.

Context {T : Type} {numT : Number T}.



End HiddenState.



(** ** On binary64 floats

    What was stated on the reals holds on the floats the interpreter
    computes with, for finite arguments: the comparisons of [min] agree with
    the lexicographic order of the keys, and the product of two finite floats
    is never nan (it may overflow to an infinity, which is ordered). *)

Section Order.

Local Open Scope Z_scope.

(** The comparison of two floats that are not nan is the comparison of
    their keys. *)
Lemma SFcompare_key (x y : spec_float) :
  has_order x -> has_order y ->
  SFcompare x y = Some (key_compare (key x) (key y)).
Proof.
  unfold has_order.
  destruct x as [[] | [] | | [] mx ex], y as [[] | [] | | [] my ey];
    intros Hx Hy; try congruence; try reflexivity.
  - cbn. rewrite Z.compare_opp.
    destruct (Z.compare_spec ex ey) as [-> | H | H].
    + rewrite Z.compare_refl. reflexivity.
    + apply Z.compare_gt_iff in H as H'. rewrite H'. reflexivity.
    + apply Z.compare_lt_iff in H as H'. rewrite H'. reflexivity.
Qed.

Lemma key_compare_lt (p q : Z * Z * Z) : key_compare p q = Lt <-> key_lt p q.
Proof.
  destruct p as [[a1 a2] a3], q as [[b1 b2] b3]. unfold key_compare, key_lt.
  destruct (Z.compare_spec a1 b1), (Z.compare_spec a2 b2), (Z.compare_spec a3 b3);
    split; intros; try discriminate; try reflexivity; lia.
Qed.

Lemma key_compare_gt (p q : Z * Z * Z) : key_compare p q = Gt <-> key_lt q p.
Proof.
  destruct p as [[a1 a2] a3], q as [[b1 b2] b3]. unfold key_compare, key_lt.
  destruct (Z.compare_spec a1 b1), (Z.compare_spec a2 b2), (Z.compare_spec a3 b3);
    split; intros; try discriminate; try reflexivity; lia.
Qed.

Lemma key_lt_irrefl p : ~ key_lt p p.
Proof. destruct p as [[a1 a2] a3]. unfold key_lt. lia. Qed.

Lemma key_lt_trans p q r : key_lt p q -> key_lt q r -> key_lt p r.
Proof.
  destruct p as [[a1 a2] a3], q as [[b1 b2] b3], r as [[c1 c2] c3].
  unfold key_lt. lia.
Qed.

Lemma SFltb_key x y :
  SFltb x y = true <-> has_order x /\ has_order y /\ key_lt (key x) (key y).
Proof.
  unfold SFltb. split.
  - destruct x, y; try discriminate; intros H;
      (split; [discriminate | split; [discriminate |]]);
      apply key_compare_lt;
      match type of H with
      | match SFcompare ?a ?b with _ => _ end = _ =>
          rewrite (SFcompare_key a b) in H by discriminate;
          destruct (key_compare (key a) (key b)); congruence
      end.
  - intros (Hx & Hy & Hlt). rewrite SFcompare_key by assumption.
    apply key_compare_lt in Hlt. rewrite Hlt. reflexivity.
Qed.

Lemma SFleb_key x y :
  SFleb x y = true <-> has_order x /\ has_order y /\ ~ key_lt (key y) (key x).
Proof.
  unfold SFleb. split.
  - destruct x, y; try discriminate; intros H;
      (split; [discriminate | split; [discriminate |]]);
      rewrite <- key_compare_gt;
      match type of H with
      | match SFcompare ?a ?b with _ => _ end = _ =>
          rewrite (SFcompare_key a b) in H by discriminate;
          destruct (key_compare (key a) (key b)); congruence
      end.
  - intros (Hx & Hy & Hlt). rewrite SFcompare_key by assumption.
    rewrite <- key_compare_gt in Hlt.
    destruct (key_compare (key x) (key y)); congruence.
Qed.

End Order.

Section Binary64.

Lemma key_compare_refl p : key_compare p p = Eq.
Proof.
  destruct p as [[a1 a2] a3]. unfold key_compare.
  rewrite !Z.compare_refl. reflexivity.
Qed.

Lemma ordered_has_order (x : float) : ordered x <-> has_order (Prim2SF x).
Proof.
  unfold ordered, is_nan, has_order. rewrite eqb_spec. unfold SFeqb. split.
  - intros H Hnan. rewrite Hnan in H. discriminate.
  - intros H. rewrite SFcompare_key, key_compare_refl by assumption. reflexivity.
Qed.

Lemma float_ltb_true (x y : float) :
  (x <? y)%float = true <-> ordered x /\ ordered y /\ key_lt (fkey x) (fkey y).
Proof. rewrite ltb_spec, SFltb_key, !ordered_has_order. reflexivity. Qed.

Lemma float_leb_true (x y : float) :
  (x <=? y)%float = true <-> ordered x /\ ordered y /\ ~ key_lt (fkey y) (fkey x).
Proof. rewrite leb_spec, SFleb_key, !ordered_has_order. reflexivity. Qed.

Lemma float_ltb_false (x y : float) :
  ordered x -> ordered y ->
  ((x <? y)%float = false <-> ~ key_lt (fkey x) (fkey y)).
Proof.
  intros Hx Hy. rewrite <- not_true_iff_false, float_ltb_true. tauto.
Qed.

End Binary64.

(** Comparisons of floats in the context, turned into facts on keys; and a
    goal on keys, closed by linear arithmetic on their components. *)
Ltac key_facts :=
  repeat match goal with
    | H : (_ <? _)%float = true |- _ =>
        apply float_ltb_true in H; destruct H as (? & ? & ?)
    | H : (_ <=? _)%float = true |- _ =>
        apply float_leb_true in H; destruct H as (? & ? & ?)
    | H : (_ <? _)%float = false |- _ =>
        apply float_ltb_false in H; [| assumption | assumption]
    end.

Ltac key_arith :=
  unfold fkey in *;
  repeat match goal with
    | |- context [key ?s] => generalize dependent (key s); intros
    | H : context [key ?s] |- _ => generalize dependent (key s); intros
    end;
  repeat match goal with p : (Z * Z * Z)%type |- _ => destruct p as [[? ?] ?] end;
  unfold key_lt in *; lia.

Section Binary64Clamp.

Lemma keep_min_float (x y : float) :
  keep_min x y = if (y <? x)%float then y else x.
Proof. reflexivity. Qed.

Lemma keep_min_ordered (x y : float) :
  ordered x -> ordered y -> ordered (keep_min x y).
Proof. intros Hx Hy. rewrite keep_min_float. destruct (y <? x)%float; assumption. Qed.

Lemma keep_min_le_l (x y : float) :
  ordered x -> ordered y -> (keep_min x y <=? x)%float = true.
Proof.
  intros Hx Hy. rewrite keep_min_float.
  destruct (y <? x)%float eqn:E; key_facts;
    apply float_leb_true; (split; [assumption | split; [assumption |]]);
    key_arith.
Qed.

Lemma keep_min_le_r (x y : float) :
  ordered x -> ordered y -> (keep_min x y <=? y)%float = true.
Proof.
  intros Hx Hy. rewrite keep_min_float.
  destruct (y <? x)%float eqn:E; key_facts;
    apply float_leb_true; (split; [assumption | split; [assumption |]]);
    key_arith.
Qed.

Lemma float_leb_trans (x y z : float) :
  (x <=? y)%float = true -> (y <=? z)%float = true -> (x <=? z)%float = true.
Proof.
  intros H1 H2. key_facts.
  apply float_leb_true; (split; [assumption | split; [assumption |]]).
  key_arith.
Qed.

Lemma keep_min_monotone (x1 x2 y : float) :
  (x1 <=? x2)%float = true -> ordered y ->
  (keep_min x1 y <=? keep_min x2 y)%float = true.
Proof.
  intros H Hy. rewrite !keep_min_float.
  assert (ordered x1 /\ ordered x2) as [Hx1 Hx2]
      by (apply float_leb_true in H; tauto).
  destruct (y <? x1)%float eqn:E1, (y <? x2)%float eqn:E2; key_facts;
    apply float_leb_true; (split; [assumption | split; [assumption |]]);
    key_arith.
Qed.

End Binary64Clamp.

(** Rounding a non-negative mantissa never produces nan: the shifts that
    [binary_round_aux] applies keep the mantissa non-negative. *)
Section Rounding.

Local Open Scope Z_scope.

Lemma shr_1_nonneg mrs : 0 <= shr_m mrs -> 0 <= shr_m (shr_1 mrs).
Proof.
  destruct mrs as [m r s]. cbn [shr_m]. intros H.
  destruct m as [| [p | p |] | p]; cbn; lia.
Qed.

Lemma iter_pos_shr_1_nonneg (n : positive) :
  forall mrs, 0 <= shr_m mrs -> 0 <= shr_m (iter_pos shr_1 n mrs).
Proof.
  induction n as [n IH | n IH |]; intros mrs H; cbn [iter_pos].
  - apply IH, IH, shr_1_nonneg, H.
  - apply IH, IH, H.
  - apply shr_1_nonneg, H.
Qed.

Lemma shr_fexp_nonneg prec emax m e l :
  0 <= m -> 0 <= shr_m (fst (shr_fexp prec emax m e l)).
Proof.
  intros H. unfold shr_fexp, shr.
  assert (0 <= shr_m (shr_record_of_loc m l)) as H0
      by (destruct l as [| []]; exact H).
  destruct (fexp prec emax (Zdigits2 m + e) - e); cbn [fst];
    try exact H0.
  apply iter_pos_shr_1_nonneg, H0.
Qed.

Lemma round_nearest_even_nonneg m l : 0 <= m -> 0 <= round_nearest_even m l.
Proof.
  intros H. unfold round_nearest_even.
  destruct l as [| []]; try destruct (Z.even m); lia.
Qed.

Lemma binary_round_aux_has_order prec emax s m e l :
  0 <= m -> has_order (binary_round_aux prec emax s m e l).
Proof.
  intros H. unfold binary_round_aux.
  pose proof (shr_fexp_nonneg prec emax m e l H) as H1.
  destruct (shr_fexp prec emax m e l) as [mrs' e']. cbn [fst] in H1.
  pose proof (shr_fexp_nonneg prec emax _ e' loc_Exact
                (round_nearest_even_nonneg (shr_m mrs') (loc_of_shr_record mrs') H1)) as H2.
  destruct (shr_fexp prec emax _ e' loc_Exact) as [mrs'' e'']. cbn [fst] in H2.
  unfold has_order.
  destruct (shr_m mrs'') as [| p | p]; try discriminate.
  - destruct (e'' <=? emax - prec); discriminate.
  - lia.
Qed.

End Rounding.

Section FiniteProduct.

Lemma Prim2SF_infinity : Prim2SF infinity = S754_infinity false.
Proof. reflexivity. Qed.

(** A finite float is a zero or a finite number. *)
Lemma is_finite_cases (x : float) :
  is_finite x = true ->
  (exists s, Prim2SF x = S754_zero s) \/ (exists s m e, Prim2SF x = S754_finite s m e).
Proof.
  unfold is_finite, is_nan, is_infinity.
  rewrite !eqb_spec, abs_spec, Prim2SF_infinity.
  destruct (Prim2SF x) as [s | [] | | s m e]; cbn; intros H;
    try discriminate; eauto.
Qed.

Lemma finite_ordered (x : float) : is_finite x = true -> ordered x.
Proof.
  intros H. apply ordered_has_order.
  destruct (is_finite_cases x H) as [[s E] | (s & m & e & E)]; rewrite E; discriminate.
Qed.

Lemma finite_mul_ordered (x y : float) :
  is_finite x = true -> is_finite y = true -> ordered (x * y)%float.
Proof.
  intros Hx Hy. apply ordered_has_order. rewrite mul_spec.
  destruct (is_finite_cases x Hx) as [[sx Ex] | (sx & mx & ex & Ex)],
           (is_finite_cases y Hy) as [[sy Ey] | (sy & my & ey & Ey)];
    rewrite Ex, Ey; try discriminate.
  apply binary_round_aux_has_order. lia.
Qed.

(** The product of zero and a finite float is a zero. *)
Lemma zero_mul_finite (y : float) :
  is_finite y = true -> exists s, Prim2SF (0 * y)%float = S754_zero s.
Proof.
  intros Hy. rewrite mul_spec.
  destruct (is_finite_cases y Hy) as [[sy Ey] | (sy & my & ey & Ey)];
    rewrite Ey; cbn; eauto.
Qed.

End FiniteProduct.

(** On a carrier whose [<] is asymmetric and transitive, clamping the
    clamped value again selects it again. *)
Section StrictOrder.

Context {T : Type} {numT : Number T}.

Hypothesis lt_asym : forall x y : T, num_lt x y = true -> num_lt y x = false.
Hypothesis lt_trans :
  forall x y z : T, num_lt x y = true -> num_lt y z = true -> num_lt x z = true.

Lemma keep_min_again (a b x : T) :
  keep_min (keep_min (keep_min (keep_min a b) x) b) x
  = keep_min (keep_min a b) x.
Proof.
  unfold keep_min.
  destruct (num_lt b a) eqn:Eba.
  - destruct (num_lt x b) eqn:Exb.
    + rewrite (lt_asym _ _ Exb).
      destruct (num_lt x x) eqn:Exx; reflexivity.
    + destruct (num_lt b b) eqn:Ebb; rewrite Exb; reflexivity.
  - destruct (num_lt x a) eqn:Exa.
    + destruct (num_lt b x) eqn:Ebx.
      * rewrite (lt_trans _ _ _ Ebx Exa) in Eba. discriminate.
      * destruct (num_lt x x) eqn:Exx; reflexivity.
    + rewrite Eba, Exa. reflexivity.
Qed.

End StrictOrder.

Section Binary64Calls.

Lemma float_lt_asym (x y : float) : num_lt x y = true -> num_lt y x = false.
Proof.
  cbn [num_lt float_number]. intros H. key_facts.
  apply float_ltb_false; [assumption | assumption |]. key_arith.
Qed.

Lemma float_lt_trans (x y z : float) :
  num_lt x y = true -> num_lt y z = true -> num_lt x z = true.
Proof.
  cbn [num_lt float_number]. intros H1 H2. key_facts.
  apply float_ltb_true. split; [assumption | split; [assumption |]]. key_arith.
Qed.

(** X13. On finite floats the value returned is at most each candidate, in
    the order [<=] of the floats. *)
Theorem float_call_le_candidates (a b c e : float) (w : interp float) :
  is_finite a = true -> is_finite b = true ->
  is_finite c = true -> is_finite e = true ->
  exists r,
    apply_force a b c e w = Returned (r, w)
    /\ (r <=? a)%float = true /\ (r <=? b)%float = true
    /\ (r <=? e * c)%float = true.
Proof.
  intros Ha Hb Hc He. rewrite apply_force_run. eexists. split; [reflexivity |].
  cbn [num_mul float_number].
  pose proof (finite_ordered a Ha) as Oa.
  pose proof (finite_ordered b Hb) as Ob.
  pose proof (finite_mul_ordered e c He Hc) as Ox.
  pose proof (keep_min_ordered a b Oa Ob) as Om.
  split; [| split].
  - eapply float_leb_trans; [apply keep_min_le_l | apply keep_min_le_l]; assumption.
  - eapply float_leb_trans; [apply keep_min_le_l | apply keep_min_le_r]; assumption.
  - apply keep_min_le_r; assumption.
Qed.

(** X14. On finite floats the call is non-decreasing in the desired
    force. *)
Theorem float_call_monotone (a1 a2 b c e : float) (w : interp float) :
  is_finite b = true -> is_finite c = true -> is_finite e = true ->
  (a1 <=? a2)%float = true ->
  exists r1 r2,
    apply_force a1 b c e w = Returned (r1, w)
    /\ apply_force a2 b c e w = Returned (r2, w)
    /\ (r1 <=? r2)%float = true.
Proof.
  intros Hb Hc He Hle. rewrite !apply_force_run. do 2 eexists.
  split; [reflexivity | split; [reflexivity |]].
  apply keep_min_monotone.
  - apply keep_min_monotone; [exact Hle | apply finite_ordered, Hb].
  - apply finite_mul_ordered; assumption.
Qed.

(** X15. On finite floats, efficiency zero makes the product a zero of
    either sign, and the value returned equals ([==]) the least of a, b
    and 0. *)
Theorem float_call_zero_efficiency (a b c : float) (w : interp float) :
  is_finite a = true -> is_finite b = true -> is_finite c = true ->
  exists r,
    apply_force a b c 0%float w = Returned (r, w)
    /\ (r =? keep_min (keep_min a b) 0)%float = true.
Proof.
  intros Ha Hb Hc. rewrite apply_force_run. eexists. split; [reflexivity |].
  cbn [num_mul float_number].
  destruct (zero_mul_finite c Hc) as [s Hz].
  pose proof (keep_min_ordered a b (finite_ordered a Ha) (finite_ordered b Hb)) as Om.
  set (m := keep_min a b) in *.
  rewrite !keep_min_float.
  assert ((0 * c <? m) = (0 <? m))%float as ->.
  { rewrite !ltb_spec, Hz. destruct s, (Prim2SF m); reflexivity. }
  destruct (0 <? m)%float.
  - rewrite eqb_spec, Hz. destruct s; reflexivity.
  - rewrite eqb_spec. unfold SFeqb.
    apply ordered_has_order in Om.
    rewrite SFcompare_key, key_compare_refl by assumption. reflexivity.
Qed.

(** X16. On all floats, nan and the infinities included, the value returned
    is one of the three candidates and clamping it again returns it again. *)
Theorem float_call_selects_fixed_point (a b c e : float) (w : interp float) :
  exists r,
    apply_force a b c e w = Returned (r, w)
    /\ (r = a \/ r = b \/ r = (e * c)%float)
    /\ apply_force r b c e w = Returned (r, w).
Proof.
  rewrite apply_force_run. eexists. split; [reflexivity |]. split.
  - cbn [num_mul float_number].
    destruct (keep_min_cases (keep_min a b) (e * c)%float) as [-> | ->]; auto.
    destruct (keep_min_cases a b) as [-> | ->]; auto.
  - rewrite apply_force_run.
    rewrite (keep_min_again float_lt_asym float_lt_trans). reflexivity.
Qed.

(** The finiteness asked above is not for show: nan is no real number and
    is below nothing. *)
Remark nan_is_not_ordered (w : interp float) :
  apply_force nan 1%float 1%float 1%float w = Returned (nan, w)
  /\ (nan <=? 1)%float = false.
Proof. split; [rewrite apply_force_run |]; reflexivity. Qed.

(** The finite arguments of the module body, for instance. *)
Lemma float_call_le_candidates_witness :
  is_finite 2.0%float = true /\ is_finite 3.0%float = true
  /\ is_finite 5.0%float = true /\ is_finite 0.8%float = true
  /\ exists r,
      apply_force 2.0%float 3.0%float 5.0%float 0.8%float (fresh float)
      = Returned (r, fresh float)
      /\ (r <=? 2.0)%float = true /\ (r <=? 3.0)%float = true
      /\ (r <=? 0.8 * 5.0)%float = true.
Proof.
  repeat (split; [reflexivity |]).
  apply (float_call_le_candidates 2.0 3.0 5.0 0.8 (fresh float)); reflexivity.
Defined.

Lemma float_call_monotone_witness :
  is_finite 3.0%float = true /\ is_finite 5.0%float = true
  /\ is_finite 0.8%float = true /\ (2.0 <=? 10.0)%float = true
  /\ exists r1 r2,
      apply_force 2.0%float 3.0%float 5.0%float 0.8%float (fresh float)
      = Returned (r1, fresh float)
      /\ apply_force 10.0%float 3.0%float 5.0%float 0.8%float (fresh float)
         = Returned (r2, fresh float)
      /\ (r1 <=? r2)%float = true.
Proof.
  repeat (split; [reflexivity |]).
  apply (float_call_monotone 2.0 10.0 3.0 5.0 0.8 (fresh float)); reflexivity.
Defined.

Lemma float_call_zero_efficiency_witness :
  is_finite 2.0%float = true /\ is_finite 3.0%float = true
  /\ is_finite (-5.0)%float = true
  /\ exists r,
      apply_force 2.0%float 3.0%float (-5.0)%float 0%float (fresh float)
      = Returned (r, fresh float)
      /\ (r =? keep_min (keep_min 2.0 3.0) 0)%float = true.
Proof.
  repeat (split; [reflexivity |]).
  apply (float_call_zero_efficiency 2.0 3.0 (-5.0) (fresh float)); reflexivity.
Defined.

End Binary64Calls.

(** ** More on the reals: when the demand is met, and how the limits act *)

(** Every call of a goal on reals, run. *)
Ltac run_calls_on_reals :=
  rewrite !apply_force_run, !keep_min_Rmin; cbn [num_mul R_number].

(** The minima of a goal on reals and of its context, settled by cases. *)
Ltac settle_minima :=
  unfold Rmin in *;
  repeat match goal with
    | |- context [Rle_dec ?x ?y] => destruct (Rle_dec x y)
    | H : context [Rle_dec ?x ?y] |- _ => destruct (Rle_dec x y)
    end;
  lra.

Section RealsFurther.

Local Open Scope R_scope.

Lemma call_value (r s : R) (w : interp R) :
  Returned (r, w) = Returned (s, w) <-> r = s.
Proof. split; [intros H; injection H; auto | intros ->; reflexivity]. Qed.

(** X1. The desired force is returned unchanged exactly when it respects
    both limits: apply_force(a,b,c,e) = a if and only if a <= b and
    a <= e*c. *)
Theorem feasible_demand_is_honoured :
  forall (a b c e : R) (w : interp R),
    apply_force a b c e w = Returned (a, w) <-> a <= b /\ a <= e * c.
Proof.
  intros a b c e w. run_on_reals. rewrite call_value.
  split; [intros H | intros [H1 H2]]; settle_minima.
Qed.

(** X2. Once the desired force reaches the tighter of the two limits, it no
    longer matters: every such demand returns min(b, e*c). *)
Theorem saturated_demand_is_ignored :
  forall (a1 a2 b c e : R) (w : interp R),
    Rmin b (e * c) <= a1 -> Rmin b (e * c) <= a2 ->
    apply_force a1 b c e w = Returned (Rmin b (e * c), w)
    /\ apply_force a2 b c e w = apply_force a1 b c e w.
Proof.
  intros a1 a2 b c e w H1 H2. run_calls_on_reals. rewrite !call_value.
  split; settle_minima.
Qed.

Lemma saturated_demand_is_ignored_witness :
  Rmin 3 (8 / 10 * 5) <= 10 /\ Rmin 3 (8 / 10 * 5) <= 20
  /\ apply_force 10 3 5 (8 / 10) (fresh R)
     = Returned (Rmin 3 (8 / 10 * 5), fresh R)
  /\ apply_force 20 3 5 (8 / 10) (fresh R)
     = apply_force 10 3 5 (8 / 10) (fresh R).
Proof.
  assert (Rmin 3 (8 / 10 * 5) <= 10) as H1 by settle_minima.
  assert (Rmin 3 (8 / 10 * 5) <= 20) as H2 by settle_minima.
  split; [exact H1 | split; [exact H2 |]].
  exact (saturated_demand_is_ignored 10 20 3 5 (8 / 10) (fresh R) H1 H2).
Defined.

(** X3. The value returned is the greatest value that respects the three
    limits: it is at most a, b and e*c, and whatever is at most a, b and
    e*c is at most it. *)
Theorem apply_force_greatest_lower_bound :
  forall (a b c e : R) (w : interp R),
    exists r,
      apply_force a b c e w = Returned (r, w)
      /\ r <= a /\ r <= b /\ r <= e * c
      /\ forall x, x <= a -> x <= b -> x <= e * c -> x <= r.
Proof.
  intros a b c e w. eexists. split; [run_on_reals; reflexivity |].
  pose proof (Rmin_l (Rmin a b) (e * c)).
  pose proof (Rmin_r (Rmin a b) (e * c)).
  pose proof (Rmin_l a b). pose proof (Rmin_r a b).
  repeat split; try lra.
  intros x Ha Hb Hc. apply Rmin_glb; [apply Rmin_glb |]; assumption.
Qed.

(** X4. Non-negative inputs give a non-negative force. *)
Theorem nonnegative_inputs_nonnegative_force :
  forall (a b c e : R) (w : interp R),
    0 <= a -> 0 <= b -> 0 <= c -> 0 <= e ->
    exists r, apply_force a b c e w = Returned (r, w) /\ 0 <= r.
Proof.
  intros a b c e w Ha Hb Hc He. eexists. split; [run_on_reals; reflexivity |].
  apply Rmin_glb; [apply Rmin_glb; assumption |].
  apply Rmult_le_pos; assumption.
Qed.

Lemma nonnegative_inputs_nonnegative_force_witness :
  0 <= 2 /\ 0 <= 3 /\ 0 <= 5 /\ 0 <= 8 / 10
  /\ exists r, apply_force 2 3 5 (8 / 10) (fresh R) = Returned (r, fresh R)
               /\ 0 <= r.
Proof.
  split; [lra | split; [lra | split; [lra | split; [lra |]]]].
  apply (nonnegative_inputs_nonnegative_force 2 3 5 (8 / 10) (fresh R)); lra.
Defined.

(** X5. The call is non-decreasing in the safety limit. *)
Theorem apply_force_monotone_safe_limit :
  forall (a b1 b2 c e : R) (w : interp R),
    b1 <= b2 ->
    exists r1 r2,
      apply_force a b1 c e w = Returned (r1, w)
      /\ apply_force a b2 c e w = Returned (r2, w)
      /\ r1 <= r2.
Proof.
  intros a b1 b2 c e w H. do 2 eexists.
  split; [run_on_reals; reflexivity |].
  split; [run_on_reals; reflexivity |].
  apply Rle_min_compat_r, Rle_min_compat_l, H.
Qed.

Lemma apply_force_monotone_safe_limit_witness :
  1 <= 3
  /\ exists r1 r2,
      apply_force 2 1 5 (8 / 10) (fresh R) = Returned (r1, fresh R)
      /\ apply_force 2 3 5 (8 / 10) (fresh R) = Returned (r2, fresh R)
      /\ r1 <= r2.
Proof.
  split; [lra |].
  apply (apply_force_monotone_safe_limit 2 1 3 5 (8 / 10) (fresh R)). lra.
Defined.

(** X6. With a non-negative efficiency the call is non-decreasing in the
    actuator force. *)
Theorem apply_force_monotone_actuator :
  forall (a b c1 c2 e : R) (w : interp R),
    0 <= e -> c1 <= c2 ->
    exists r1 r2,
      apply_force a b c1 e w = Returned (r1, w)
      /\ apply_force a b c2 e w = Returned (r2, w)
      /\ r1 <= r2.
Proof.
  intros a b c1 c2 e w He H. do 2 eexists.
  split; [run_on_reals; reflexivity |].
  split; [run_on_reals; reflexivity |].
  apply Rle_min_compat_l, Rmult_le_compat_l; assumption.
Qed.

Lemma apply_force_monotone_actuator_witness :
  0 <= 8 / 10 /\ 1 <= 5
  /\ exists r1 r2,
      apply_force 2 3 1 (8 / 10) (fresh R) = Returned (r1, fresh R)
      /\ apply_force 2 3 5 (8 / 10) (fresh R) = Returned (r2, fresh R)
      /\ r1 <= r2.
Proof.
  split; [lra | split; [lra |]].
  apply (apply_force_monotone_actuator 2 3 1 5 (8 / 10) (fresh R)); lra.
Defined.

(** X7. With a non-negative actuator force the call is non-decreasing in
    the efficiency. *)
Theorem apply_force_monotone_efficiency :
  forall (a b c e1 e2 : R) (w : interp R),
    0 <= c -> e1 <= e2 ->
    exists r1 r2,
      apply_force a b c e1 w = Returned (r1, w)
      /\ apply_force a b c e2 w = Returned (r2, w)
      /\ r1 <= r2.
Proof.
  intros a b c e1 e2 w Hc H. do 2 eexists.
  split; [run_on_reals; reflexivity |].
  split; [run_on_reals; reflexivity |].
  apply Rle_min_compat_l, Rmult_le_compat_r; assumption.
Qed.

Lemma apply_force_monotone_efficiency_witness :
  0 <= 5 /\ 2 / 10 <= 8 / 10
  /\ exists r1 r2,
      apply_force 2 3 5 (2 / 10) (fresh R) = Returned (r1, fresh R)
      /\ apply_force 2 3 5 (8 / 10) (fresh R) = Returned (r2, fresh R)
      /\ r1 <= r2.
Proof.
  split; [lra | split; [lra |]].
  apply (apply_force_monotone_efficiency 2 3 5 (2 / 10) (8 / 10) (fresh R)); lra.
Defined.

(** X8. A negative efficiency, which the function accepts, turns the
    actuator force around: a stronger actuator then never raises the
    result. *)
Theorem negative_efficiency_inverts_actuator :
  forall (a b c1 c2 e : R) (w : interp R),
    e <= 0 -> c1 <= c2 ->
    exists r1 r2,
      apply_force a b c1 e w = Returned (r1, w)
      /\ apply_force a b c2 e w = Returned (r2, w)
      /\ r2 <= r1.
Proof.
  intros a b c1 c2 e w He H. do 2 eexists.
  split; [run_on_reals; reflexivity |].
  split; [run_on_reals; reflexivity |].
  apply Rle_min_compat_l. nra.
Qed.

Lemma negative_efficiency_inverts_actuator_witness :
  -1 <= 0 /\ 1 <= 5
  /\ exists r1 r2,
      apply_force 2 3 1 (-1) (fresh R) = Returned (r1, fresh R)
      /\ apply_force 2 3 5 (-1) (fresh R) = Returned (r2, fresh R)
      /\ r2 <= r1.
Proof.
  split; [lra | split; [lra |]].
  apply (negative_efficiency_inverts_actuator 2 3 1 5 (-1) (fresh R)); lra.
Defined.

(** X9. Two exchanges leave the result as it is: the desired force with
    the safety limit, and the efficiency with the actuator force. *)
Theorem apply_force_symmetries :
  forall (a b c e : R) (w : interp R),
    apply_force b a c e w = apply_force a b c e w
    /\ apply_force a b e c w = apply_force a b c e w.
Proof.
  intros a b c e w. run_calls_on_reals. split.
  - rewrite (Rmin_comm b a). reflexivity.
  - rewrite (Rmult_comm c e). reflexivity.
Qed.

(** X11. Clamping a clamped force again is one clamp by the tighter
    limits: the second call returns min(a, min(b1,b2), min(e1*c1, e2*c2)). *)
Theorem apply_force_twice_is_tighter_clamp :
  forall (a b1 c1 e1 b2 c2 e2 : R) (w : interp R),
    (r <- apply_force a b1 c1 e1 ;; apply_force r b2 c2 e2) w
    = Returned (Rmin (Rmin a (Rmin b1 b2)) (Rmin (e1 * c1) (e2 * c2)), w).
Proof.
  intros. unfold bind. run_on_reals. run_on_reals. rewrite call_value.
  settle_minima.
Qed.

(** X12. The call never amplifies a change of the desired force: two
    demands a1 and a2 give results no further apart than |a1 - a2|. *)
Theorem apply_force_nonexpansive :
  forall (a1 a2 b c e : R) (w : interp R),
    exists r1 r2,
      apply_force a1 b c e w = Returned (r1, w)
      /\ apply_force a2 b c e w = Returned (r2, w)
      /\ Rabs (r1 - r2) <= Rabs (a1 - a2).
Proof.
  intros a1 a2 b c e w. do 2 eexists.
  split; [run_on_reals; reflexivity |].
  split; [run_on_reals; reflexivity |].
  unfold Rmin, Rabs. repeat destruct Rle_dec; repeat destruct Rcase_abs; lra.
Qed.

End RealsFurther.

(** ** Floats that are no real numbers, and equal candidates

    The comparisons of [min] with nan are all false, so a nan among the
    candidates is kept when it comes first and passed over otherwise; and of
    candidates that compare equal the first is returned. *)

Section Binary64Edges.

Lemma float_ltb_nan_r (x : float) : (x <? nan)%float = false.
Proof. rewrite ltb_spec. destruct (Prim2SF x) as [| [] | |]; reflexivity. Qed.

Lemma float_ltb_nan_l (x : float) : (nan <? x)%float = false.
Proof. rewrite ltb_spec. reflexivity. Qed.

Lemma float_ltb_infinity_l (x : float) : (infinity <? x)%float = false.
Proof.
  rewrite ltb_spec.
  change (Prim2SF infinity) with (S754_infinity false).
  destruct (Prim2SF x) as [| [] | |]; reflexivity.
Qed.

Lemma float_is_nan (x : float) : is_nan x = true -> x = nan.
Proof.
  intros H. apply Prim2SF_inj. change (Prim2SF nan) with S754_nan.
  destruct (Prim2SF x) eqn:E; try reflexivity;
    assert (ordered x) as O by (apply ordered_has_order; rewrite E; discriminate);
    unfold ordered in O; congruence.
Qed.

Lemma float_leb_ltb (x y : float) :
  (x <=? y)%float = true -> (y <? x)%float = false.
Proof. intros H. key_facts. apply float_ltb_false; assumption. Qed.

(** X17. A desired force that is nan comes back as nan, whatever the
    limits. *)
Theorem nan_demand_returns_nan :
  forall (b c e : float) (w : interp float),
    apply_force nan b c e w = Returned (nan, w).
Proof.
  intros b c e w. rewrite apply_force_run, !keep_min_float.
  rewrite !float_ltb_nan_r. reflexivity.
Qed.

(** X18. A safety limit that is nan limits nothing: the call returns what
    it returns with an infinite safety limit. *)
Theorem nan_safe_limit_is_no_limit :
  forall (a c e : float) (w : interp float),
    apply_force a nan c e w = apply_force a infinity c e w.
Proof.
  intros a c e w. rewrite !apply_force_run, !keep_min_float.
  rewrite float_ltb_nan_l, float_ltb_infinity_l. reflexivity.
Qed.

(** X19. When the product efficiency*actuator_force is nan (zero times
    infinity, say) the actuator limits nothing: the call returns what it
    returns with an infinite actuator force at efficiency 1. *)
Theorem nan_product_is_no_limit :
  forall (a b c e : float) (w : interp float),
    is_nan (e * c) = true ->
    apply_force a b c e w = apply_force a b infinity 1%float w.
Proof.
  intros a b c e w H. rewrite !apply_force_run. cbn [num_mul float_number].
  rewrite (float_is_nan _ H).
  change (1 * infinity)%float with infinity.
  rewrite !keep_min_float, float_ltb_nan_l, float_ltb_infinity_l. reflexivity.
Qed.

Lemma nan_product_is_no_limit_witness :
  is_nan (0 * infinity) = true
  /\ apply_force 2.0%float 3.0%float infinity 0%float (fresh float)
     = apply_force 2.0%float 3.0%float infinity 1%float (fresh float).
Proof.
  split; [reflexivity |].
  apply (nan_product_is_no_limit 2.0 3.0 infinity 0 (fresh float)). reflexivity.
Defined.

(** X20. On floats a desired force that is at most both limits is itself
    the value returned, also when a limit compares equal to it: of 0.0 and
    -0.0 the call returns the one passed as desired force. *)
Theorem float_feasible_demand_is_returned :
  forall (a b c e : float) (w : interp float),
    (a <=? b)%float = true -> (a <=? e * c)%float = true ->
    apply_force a b c e w = Returned (a, w).
Proof.
  intros a b c e w Hb Hx. rewrite apply_force_run. cbn [num_mul float_number].
  rewrite (keep_min_float a b), (float_leb_ltb _ _ Hb).
  rewrite keep_min_float, (float_leb_ltb _ _ Hx). reflexivity.
Qed.

Lemma float_feasible_demand_is_returned_witness :
  (0 <=? -0)%float = true /\ (0 <=? 1 * 5)%float = true
  /\ apply_force 0%float (-0)%float 5%float 1%float (fresh float)
     = Returned (0%float, fresh float).
Proof.
  split; [reflexivity | split; [reflexivity |]].
  apply (float_feasible_demand_is_returned 0 (-0) 5 1 (fresh float)); reflexivity.
Defined.

Lemma SFmul_comm prec emax (x y : spec_float) :
  SFmul prec emax x y = SFmul prec emax y x.
Proof.
  destruct x as [sx | sx | | sx mx ex], y as [sy | sy | | sy my ey]; cbn;
    try reflexivity; try (rewrite (xorb_comm sx sy); reflexivity).
  rewrite (xorb_comm sx sy), (Pos.mul_comm mx my), (Z.add_comm ex ey).
  reflexivity.
Qed.

Lemma float_mul_comm (x y : float) : (x * y = y * x)%float.
Proof. apply Prim2SF_inj. rewrite !mul_spec. apply SFmul_comm. Qed.

(** X21. On floats too the efficiency and the actuator force can be
    exchanged: the rounded product is the same either way. *)
Theorem float_efficiency_actuator_swap :
  forall (a b c e : float) (w : interp float),
    apply_force a b e c w = apply_force a b c e w.
Proof.
  intros a b c e w. rewrite !apply_force_run. cbn [num_mul float_number].
  rewrite (float_mul_comm c e). reflexivity.
Qed.

End Binary64Edges.

(** ** Failure: an int too large for a float *)

Section Overflow.

Local Open Scope Z_scope.

(** The digits of a mantissa through the conversion: a shift to the right
    takes digits off, rounding adds at most one. *)
Lemma digits2_log2 (p : positive) : Zpos (digits2_pos p) = Z.log2 (Zpos p) + 1.
Proof.
  induction p as [p IH | p IH |]; cbn [digits2_pos]; try reflexivity.
  - rewrite Pos2Z.inj_succ, IH.
    change (Zpos p~1) with (2 * Zpos p + 1).
    rewrite Z.log2_succ_double by lia. lia.
  - rewrite Pos2Z.inj_succ, IH.
    change (Zpos p~0) with (2 * Zpos p).
    rewrite Z.log2_double by lia. lia.
Qed.

Lemma Zdigits2_log2 (m : Z) : 0 < m -> Zdigits2 m = Z.log2 m + 1.
Proof. destruct m; try lia. intros _. apply digits2_log2. Qed.

Lemma Zdigits2_0 : Zdigits2 0 = 0.
Proof. reflexivity. Qed.

Lemma Zdigits2_nonneg m : 0 <= Zdigits2 m.
Proof. destruct m; cbn; lia. Qed.

Lemma Zdigits2_mono (m n : Z) : 0 <= m <= n -> Zdigits2 m <= Zdigits2 n.
Proof.
  intros [Hm Hn]. destruct (Z.eq_dec m 0) as [-> | Hm0].
  - apply Zdigits2_nonneg.
  - rewrite !Zdigits2_log2 by lia. pose proof (Z.log2_le_mono m n Hn). lia.
Qed.

Lemma Zdigits2_succ (m : Z) : 0 <= m -> Zdigits2 (m + 1) <= Zdigits2 m + 1.
Proof.
  intros Hm. destruct (Z.eq_dec m 0) as [-> | Hm0]; [cbn; lia |].
  rewrite !Zdigits2_log2 by lia.
  pose proof (Z.log2_succ_le m). unfold Z.succ in *. lia.
Qed.

(** One shift to the right takes one digit off. *)
Lemma shr_1_digits mrs :
  0 <= shr_m mrs ->
  Zdigits2 (shr_m (shr_1 mrs)) = Z.max 0 (Zdigits2 (shr_m mrs) - 1).
Proof.
  destruct mrs as [m r s]. cbn [shr_m]. intros H.
  destruct m as [| [p | p |] | p]; cbn [shr_1 shr_m Zdigits2 digits2_pos];
    rewrite ?Pos2Z.inj_succ; lia.
Qed.

Lemma iter_shr_1_digits (n : positive) :
  forall mrs,
    0 <= shr_m mrs ->
    Zdigits2 (shr_m (iter_pos shr_1 n mrs))
    = Z.max 0 (Zdigits2 (shr_m mrs) - Zpos n).
Proof.
  induction n as [n IH | n IH |]; intros mrs H; cbn [iter_pos].
  - rewrite IH, IH, shr_1_digits by
        (repeat first [apply iter_pos_shr_1_nonneg | apply shr_1_nonneg | exact H]).
    lia.
  - rewrite IH, IH by
        (repeat first [apply iter_pos_shr_1_nonneg | exact H]).
    lia.
  - rewrite shr_1_digits by exact H. lia.
Qed.


Lemma shr_fexp_exponent m e l :
  snd (shr_fexp prec emax m e l) = Z.max e (fexp prec emax (Zdigits2 m + e)).
Proof.
  unfold shr_fexp, shr.
  destruct (fexp prec emax (Zdigits2 m + e) - e) eqn:E; cbn [snd]; lia.
Qed.

(** After the shift the digits end where they ended before, or at the new
    exponent when nothing is left of them. *)
Lemma shr_fexp_digits m e l :
  0 <= m ->
  Zdigits2 (shr_m (fst (shr_fexp prec emax m e l)))
  + snd (shr_fexp prec emax m e l)
  <= Z.max (Zdigits2 m + e) (snd (shr_fexp prec emax m e l)).
Proof.
  intros H. unfold shr_fexp, shr.
  assert (shr_m (shr_record_of_loc m l) = m) as Hm by (destruct l as [| []]; reflexivity).
  destruct (fexp prec emax (Zdigits2 m + e) - e) eqn:E; cbn [fst snd];
    rewrite ?Hm; try lia.
  rewrite iter_shr_1_digits, Hm by (rewrite Hm; exact H). lia.
Qed.

Lemma round_nearest_even_le m l :
  0 <= m -> 0 <= round_nearest_even m l <= m + 1.
Proof.
  intros H. unfold round_nearest_even.
  destruct l as [| []]; try destruct (Z.even m); lia.
Qed.

Lemma binary_round_aux_finite s m e l :
  0 <= m -> e <= 970 -> Zdigits2 m + e <= 1023 ->
  forall s', binary_round_aux prec emax s m e l <> S754_infinity s'.
Proof.
  intros Hm He Hd s'. unfold binary_round_aux.
  pose proof (shr_fexp_exponent m e l) as E1.
  pose proof (shr_fexp_digits m e l Hm) as D1.
  pose proof (shr_fexp_nonneg prec emax m e l Hm) as N1.
  destruct (shr_fexp prec emax m e l) as [mrs' e']. cbn [fst snd] in *.
  pose proof (round_nearest_even_le (shr_m mrs') (loc_of_shr_record mrs') N1) as [R0 R1].
  set (m1 := round_nearest_even (shr_m mrs') (loc_of_shr_record mrs')) in *.
  pose proof (shr_fexp_exponent m1 e' loc_Exact) as E2.
  destruct (shr_fexp prec emax m1 e' loc_Exact) as [mrs'' e'']. cbn [snd] in *.
  assert (Zdigits2 m1 <= Zdigits2 (shr_m mrs') + 1) as D2.
  { eapply Z.le_trans; [apply Zdigits2_mono; split; [exact R0 | exact R1] |].
    apply Zdigits2_succ, N1. }
  assert (e'' <= 971) as Hfin.
  { unfold fexp, SpecFloat.emin, prec, emax in *. lia. }
  destruct (shr_m mrs''); try discriminate.
  destruct (Z.leb_spec e'' (emax - prec)) as [_ | Hgt]; [discriminate |].
  unfold prec, emax in Hgt. lia.
Qed.

Lemma digits2_iter_xO (m k : positive) :
  Zpos (digits2_pos (Pos.iter xO m k)) = Zpos (digits2_pos m) + Zpos k.
Proof.
  induction k as [| k IH] using Pos.peano_ind.
  - cbn. lia.
  - rewrite Pos.iter_succ. cbn [digits2_pos]. rewrite Pos2Z.inj_succ, IH. lia.
Qed.

(** An int below [2^1023] in magnitude converts to a float. *)
Lemma float_of_int_returns (z : Z) :
  Z.abs z < 2 ^ 1023 -> too_large z = false.
Proof.
  intros Hz. unfold too_large, float_of_int.
  assert (forall s m, Zpos m < 2 ^ 1023 ->
                      forall s', binary_round prec emax s m 0 <> S754_infinity s') as Hr.
  { intros s m Hm s'. unfold binary_round, shl_align.
    assert (Zpos (digits2_pos m) <= 1023) as Hd.
    { rewrite digits2_log2. pose proof (proj1 (Z.log2_lt_pow2 (Zpos m) 1023 ltac:(lia)) Hm). lia. }
    destruct (fexp prec emax (Zpos (digits2_pos m) + 0) - 0) eqn:E;
      apply binary_round_aux_finite; cbn [Zdigits2]; try lia.
    rewrite digits2_iter_xO. unfold fexp, SpecFloat.emin, prec, emax in *. lia. }
  destruct z as [| m | m]; cbn [binary_normalize].
  - reflexivity.
  - specialize (Hr false m ltac:(cbn in Hz; lia)).
    destruct (binary_round prec emax false m 0); try reflexivity. exfalso. eapply Hr. reflexivity.
  - specialize (Hr true m ltac:(cbn in Hz; lia)).
    destruct (binary_round prec emax true m 0); try reflexivity. exfalso. eapply Hr. reflexivity.
Qed.

(** The conversion at its edge: the largest int that still converts is
    just below [2^1024 - 2^970]. *)
Example too_large_edge :
  too_large (2 ^ 53 + 1) = false
  /\ too_large (2 ^ 1024 - 2 ^ 970 - 1) = false
  /\ too_large (2 ^ 1024 - 2 ^ 970) = true
  /\ too_large (- 10 ^ 400) = true.
Proof. vm_compute. repeat split. Qed.

Lemma number_min_returns (x y z : number) (w : interp number) :
  exists r, py_min [x; y; z] w = Returned (r, w).
Proof.
  unfold py_min, min_loop, bind, py_lt, lift. cbn [op_lt number_operands].
  unfold number_lt. eexists. reflexivity.
Qed.

(** C9, as amended. [apply_force] validates nothing, and on ints and
    floats it raises in one case only: when efficiency * actuator_force
    multiplies a float by an int too large to convert to a float, the
    product raises OverflowError.  In every other case it returns a value,
    whatever the sign or size of the inputs; so it does on four floats
    (nan and the infinities included), on four ints, and whenever the ints
    among efficiency and actuator_force are below 2^1023 in magnitude. *)
Theorem apply_force_raises_only_on_overflow :
  (forall (a b c e : number) (w : interp number),
      if product_overflows e c
      then apply_force a b c e w = Raised OverflowError
      else exists r, apply_force a b c e w = Returned (r, w))
  /\ (forall e c : float, product_overflows (Float e) (Float c) = false)
  /\ (forall e c : Z, product_overflows (Int e) (Int c) = false)
  /\ (forall z : Z, Z.abs z < 2 ^ 1023 -> too_large z = false).
Proof.
  split; [| split; [reflexivity | split; [reflexivity |]]];
    [| exact float_of_int_returns].
  intros a b c e w.
  unfold apply_force, apply_force_body, bind, py_mul, lift.
  cbn [op_mul number_operands].
  destruct e as [ze | fe], c as [zc | fc];
    cbn [product_overflows number_mul]; try apply number_min_returns.
  - unfold too_large. destruct (float_of_int ze) as [f | x] eqn:E.
    + apply number_min_returns.
    + unfold float_of_int in E.
      destruct (binary_normalize prec emax ze 0 false); congruence.
  - unfold too_large. destruct (float_of_int zc) as [f | x] eqn:E.
    + apply number_min_returns.
    + unfold float_of_int in E.
      destruct (binary_normalize prec emax zc 0 false); congruence.
Qed.

(** C9 as stated fails on numeric inputs: with actuator_force the int
    10**400 and efficiency the float 0.5 the product raises. *)
Lemma huge_int_times_float_raises :
  apply_force (Float 1.0) (Float 2.0) (Int (10 ^ 400)) (Float 0.5)
    (fresh number)
  = Raised OverflowError.
Proof. vm_compute. reflexivity. Qed.

End Overflow.
